(** * proxy.ts: progress events and the credential-scoped client factory

    A shallow embedding of [src/proxy.ts].  Run-time values of the
    program are JavaScript values; an object is a finite map from
    property names to values, in which a key may be missing or may be
    present with the value [undefined].  [ProgressEvent] instances are
    such objects; [SessionProxy] instances and the service clients they
    construct live in a store of allocated objects, because the claims
    about them speak of identity and of mutation. *)

From stdpp Require Import gmap strings list fin_maps.

Set Warnings "-register-all".
Open Scope string_scope.
Open Scope Z_scope.

(** ** JavaScript values *)

Module JS.

(** Numbers are kept to the integral ones, with [NaN] apart because it
    is one of the values a condition takes for false. *)
Inductive value :=
  | VUndefined
  | VNull
  | VBool (b : bool)
  | VNum (n : Z)
  | VNaN
  | VStr (s : string)
  | VArr (items : list value)
  | VObj (props : gmap string value).

(** An object: its own enumerable properties. *)
Abbreviation obj := (gmap string value).

(** [ToBoolean], the test behind [if (x)] and [!x]: exactly
    [undefined], [null], [false], [0], [NaN] and [''] are falsy. *)
Definition to_boolean (v : value) : bool :=
  match v with
  | VUndefined | VNull | VNaN => false
  | VBool b => b
  | VNum n => negb (n =? 0)
  | VStr s => negb (String.eqb s "")
  | VArr _ | VObj _ => true
  end.

(** Reading a property of an object that holds it itself or does not
    have it: a missing key reads as [undefined]. *)
Definition get (o : obj) (k : string) : value := default VUndefined (o !! k).

(** Copying the own keys of [source] over [target] by defining them,
    as an object literal does for a spread: every own key of the
    source is copied, whatever its name and its value, [undefined]
    included. *)
Definition assign (target source : obj) : obj := source ∪ target.

(** What may stand as a prototype: an object or [null]. *)
Definition is_object_or_null (v : value) : bool :=
  match v with
  | VObj _ | VArr _ | VNull => true
  | _ => false
  end.

(** [Object.assign(target, source)] writes each own key of [source] to
    [target] by assignment.  For every key but [__proto__] that leaves
    [target] with an own property of the value, [undefined] included.
    On a target that does not hold [__proto__] itself, the assignment
    to [__proto__] reaches the setter inherited from
    [Object.prototype]: no own property is created, and the prototype
    of [target] is replaced when the value is an object or [null]. *)
Definition object_assign (target source : obj) : obj :=
  match target !! "__proto__" with
  | Some _ => source ∪ target
  | None => delete "__proto__" source ∪ target
  end.

(** The prototype that [Object.assign(target, source)] gives [target],
    when it replaces the one [target] had. *)
Definition replaced_prototype (target source : obj) : option value :=
  match target !! "__proto__" with
  | Some _ => None
  | None =>
      match source !! "__proto__" with
      | Some v => if is_object_or_null v then Some v else None
      | None => None
      end
  end.

(** Object spread [{...a, ...b}] into a fresh literal; spreading
    [undefined] adds nothing. *)
Definition spread (o : option obj) : obj := default ∅ o.

(** Chained calls [x.f(a).g(b)] read left to right. *)
Notation "x |> f" := (f x) (at level 45, left associativity, only parsing).

End JS.
Import JS.

(** ** The declarations of ./interface *)

Module Interface.

(** Modelled from the spec: the enumeration [OperationStatus] is
    declared in ./interface, which is not among the sources.  The
    members are the three the source names ([InProgress], [Success],
    [Failed]); each is carried at run time by the name the spec gives
    it. *)
Inductive OperationStatus := InProgress | Success | Failed.

Definition status_value (s : OperationStatus) : value :=
  match s with
  | InProgress => VStr "IN_PROGRESS"
  | Success => VStr "SUCCESS"
  | Failed => VStr "FAILED"
  end.

(** The status a value stands for, if any. *)
Definition status_of (v : value) : option OperationStatus :=
  match v with
  | VStr s =>
      if String.eqb s "IN_PROGRESS" then Some InProgress
      else if String.eqb s "SUCCESS" then Some Success
      else if String.eqb s "FAILED" then Some Failed
      else None
  | _ => None
  end.

(** Modelled from the spec: the enumeration [HandlerErrorCode] is
    declared in ./interface too.  The spec leaves its members to the
    orchestrator's contract, so a member is kept by its name. *)
Inductive HandlerErrorCode := ErrorCode (name : string).

Definition code_value (c : HandlerErrorCode) : value :=
  match c with ErrorCode name => VStr name end.

(** Modelled from the spec: the base class [BaseDto] is declared in
    ./interface.  The spec gives an event no data attribute besides the
    eight of [ProgressEvent], so [super()] leaves the new object without
    own properties. *)
Definition BaseDto_new : obj := ∅.

End Interface.
Import Interface.

(** ** ProgressEvent *)

Module ProgressEvent.

(** The field initialisers of the class: [message = ''] and
    [callbackDelaySeconds = 0].  The six fields declared without an
    initialiser are not created. *)
Definition init_fields (this : obj) : obj :=
  <["callbackDelaySeconds" := VNum 0]> (<["message" := VStr ""]> this).

(** [constructor(partial?)]: [super()], the field initialisers, then
    [Object.assign(this, partial)] when a partial object is given. *)
Definition new (partial : option obj) : obj :=
  let this := init_fields BaseDto_new in
  match partial with
  | Some p => object_assign this p
  | None => this
  end.

(** The prototype of an event: that of the class, as [new] sets it up,
    or what a partial source put in its place. *)
Inductive prototype :=
  | ClassPrototype
  | Replaced (proto : value).

(** The prototype the constructor leaves the event with; [new] gives
    the own properties. *)
Definition new_prototype (partial : option obj) : prototype :=
  let this := init_fields BaseDto_new in
  match partial with
  | Some p =>
      match replaced_prototype this p with
      | Some proto => Replaced proto
      | None => ClassPrototype
      end
  | None => ClassPrototype
  end.

(** *** The builder

    Modelled from the spec: the builder that [ProgressEvent.builder()]
    returns is installed by the [@builder] decorator of the [tombok]
    package, which is not among the sources; the body of [builder] in
    the source is a placeholder returning [null].  By the spec it is a
    draft holding an optional slot per attribute, filled by one chained
    setter per attribute, with a terminal [build()] that validates the
    required fields ([status] always set; [errorCode] required when
    [status == FAILED]) and yields the final value, the slots left
    empty taking the class defaults. *)

Definition builder (template : option obj) : obj := spread template.

Definition status (s : OperationStatus) (draft : obj) : obj :=
  <["status" := status_value s]> draft.
Definition errorCode (c : HandlerErrorCode) (draft : obj) : obj :=
  <["errorCode" := code_value c]> draft.
Definition message (m : string) (draft : obj) : obj :=
  <["message" := VStr m]> draft.
Definition callbackContext (ctx : value) (draft : obj) : obj :=
  <["callbackContext" := ctx]> draft.
Definition callbackDelaySeconds (n : Z) (draft : obj) : obj :=
  <["callbackDelaySeconds" := VNum n]> draft.
Definition resourceModel (model : value) (draft : obj) : obj :=
  <["resourceModel" := model]> draft.
Definition resourceModels (models : list value) (draft : obj) : obj :=
  <["resourceModels" := VArr models]> draft.
Definition nextToken (t : string) (draft : obj) : obj :=
  <["nextToken" := VStr t]> draft.

(** A slot is filled when reading it gives something else than
    [undefined]. *)
Definition filled (draft : obj) (k : string) : bool :=
  match draft !! k with
  | None | Some VUndefined => false
  | Some _ => true
  end.

Definition validate (draft : obj) : bool :=
  match status_of (get draft "status") with
  | None => false
  | Some Failed => filled draft "errorCode"
  | Some _ => true
  end.

(** [build()]: [None] stands for a draft that validation rejects. *)
Definition build (draft : obj) : option obj :=
  if validate draft then Some (new (Some draft)) else None.

(** *** The convenience constructors *)

(** [static failed(errorCode, message)] *)
Definition failed (code : HandlerErrorCode) (msg : string) : option obj :=
  builder None |> status Failed |> errorCode code |> message msg |> build.

(** [static progress(model?, ctx?)]: both arguments are of type [any];
    each is attached under [if (arg)]. *)
Definition progress (model ctx : value) : option obj :=
  let progress := builder None |> status InProgress in
  let progress :=
    if to_boolean ctx then progress |> callbackContext ctx else progress in
  let progress :=
    if to_boolean model then progress |> resourceModel model else progress in
  build progress.

(** An argument is provided when the call passes something else than
    [undefined]; an omitted argument reads [undefined]. *)
Definition provided (arg : value) : bool :=
  match arg with
  | VUndefined => false
  | _ => true
  end.

(** [static success(model?, ctx?)]: the event of [progress], its
    [status] then overwritten. *)
Definition success (model ctx : value) : option obj :=
  event ← progress model ctx;
  Some (<["status" := status_value Success]> event).

(** *** Builder chains *)

(** One call of a setter. *)
Inductive setter :=
  | SetStatus (s : OperationStatus)
  | SetErrorCode (c : HandlerErrorCode)
  | SetMessage (m : string)
  | SetCallbackContext (ctx : value)
  | SetCallbackDelaySeconds (n : Z)
  | SetResourceModel (model : value)
  | SetResourceModels (models : list value)
  | SetNextToken (t : string).

Definition call (s : setter) : obj → obj :=
  match s with
  | SetStatus s => status s
  | SetErrorCode c => errorCode c
  | SetMessage m => message m
  | SetCallbackContext ctx => callbackContext ctx
  | SetCallbackDelaySeconds n => callbackDelaySeconds n
  | SetResourceModel model => resourceModel model
  | SetResourceModels models => resourceModels models
  | SetNextToken t => nextToken t
  end.





(** An event that carries nothing but the class defaults outside its
    [status], [resourceModel] and [callbackContext]. *)
Definition plain (ev : obj) : Prop :=
  get ev "message" = VStr "" ∧
  get ev "callbackDelaySeconds" = VNum 0 ∧
  dom ev ⊆ {["status"; "message"; "callbackDelaySeconds";
             "resourceModel"; "callbackContext"]}.

(** The declared shape of an optional argument of object type: left
    out, or an object. *)
Definition optional_object (arg : value) : Prop :=
  arg = VUndefined ∨ ∃ props, arg = VObj props.

(** The draft [progress] hands to [build]. *)
Definition progress_draft (model ctx : value) : obj :=
  let d := <["status" := status_value InProgress]> ∅ in
  let d := if to_boolean ctx then <["callbackContext" := ctx]> d else d in
  if to_boolean model then <["resourceModel" := model]> d else d.

End ProgressEvent.

(** ** The object store

    [new] allocates: every object of a class has an identity of its
    own, and a method that writes to [this] changes what the store
    holds at that identity. *)

Module Store.

Definition loc := positive.

Inductive object :=
  | OSessionProxy (options : obj)
  | OClient (service : string) (config : obj).

Abbreviation store := (gmap loc object).

(** How a call completes: with a result, or by throwing. *)
Inductive completion (A : Type) :=
  | Normal (a : A)
  | Throw (err : string).
Arguments Normal {A} a.
Arguments Throw {A} err.

(** Computations over the store. *)
Definition M (A : Type) : Type := store → completion A * store.

Definition ret {A} (a : A) : M A := λ σ, (Normal a, σ).
Definition throw {A} (err : string) : M A := λ σ, (Throw err, σ).
Definition bind {A B} (m : M A) (k : A → M B) : M B :=
  λ σ, match m σ with
       | (Normal a, σ') => k a σ'
       | (Throw err, σ') => (Throw err, σ')
       end.

Notation "'let!' x ':=' m 'in' k" := (bind m (λ x, k))
  (at level 10, x name, m at level 100, k at level 200, only parsing).

(** [new C(...)]: the object is put at an identity nothing holds yet. *)
Definition alloc (o : object) : M loc :=
  λ σ, let l := fresh (dom σ) in (Normal l, <[l := o]> σ).

Definition load (l : loc) : M object :=
  λ σ, match σ !! l with
       | Some o => (Normal o, σ)
       | None => (Throw "ReferenceError", σ)
       end.

End Store.
Import Store.

(** ** SessionProxy *)

Module SessionProxy.

Section WithSdk.

(** The import [Aws] ('aws-sdk/clients/all'): the service names the
    SDK exposes a constructor for. *)
Variable Aws : gset string.

(** Modelled from the spec: the service constructors belong to the
    aws-sdk package, which is not among the sources.  By the spec the
    SDK is a mapping from service name to a constructor accepting a
    configuration object, and constructing a client is pure object
    assembly: the new client records the service and the configuration
    it was given.  A name without a constructor makes [new] throw. *)
Definition construct (name : string) (config : obj) : M loc :=
  if decide (name ∈ Aws) then alloc (OClient name config)
  else throw "TypeError".

(** [this.options] *)
Definition this_options (this : loc) : M obj :=
  let! o := load this in
  match o with
  | OSessionProxy options => ret options
  | OClient _ _ => throw "TypeError"
  end.

(** [client(name, options?)]:
    [new clients[name]({...this.options, ...options})]. *)
Definition client (this : loc) (name : string) (options : option obj) : M loc :=
  let! base := this_options this in
  construct name (assign (assign ∅ base) (spread options)).

(** A caller making the calls one after the other, whatever each
    gives. *)
Fixpoint clients (this : loc) (calls : list (string * option obj))
  : store → list (completion loc) * store :=
  λ σ, match calls with
       | [] => ([], σ)
       | (name, options) :: rest =>
           let '(r, σ1) := client this name options σ in
           let '(rs, σ2) := clients this rest σ1 in
           (r :: rs, σ2)
       end.

End WithSdk.

(** [static getSession(credentials?, region?)]: [null] is [None]. *)
Definition getSession (credentials region : value) : M (option loc) :=
  if negb (to_boolean credentials) then ret None
  else
    let! this := alloc (OSessionProxy
                          (<["region" := region]>
                             (<["credentials" := credentials]> ∅))) in
    ret (Some this).

(** The identities a list of completed calls returned. *)
Definition returned (rs : list (completion loc)) : list loc :=
  omap (λ r, match r with Normal l => Some l | Throw _ => None end) rs.

(** What a call of [client] on a proxy with options [base] comes to,
    read in the store [σ'] a caller ends with: a client of the named
    service over the merge of [base] and the call's own options, or
    the [TypeError] of a name without constructor. *)
Definition outcome (Aws : gset string) (base : obj) (σ' : store)
    (call : string * option obj) (r : completion loc) : Prop :=
  match r with
  | Normal c =>
      call.1 ∈ Aws ∧
      σ' !! c = Some (OClient call.1 (assign (assign ∅ base) (spread call.2)))
  | Throw err => (call.1 ∉ Aws) ∧ err = "TypeError"
  end.

End SessionProxy.

(** * Properties *)

(** ** Reading objects *)

Section Objects.

Implicit Types (o p : obj) (k : string) (v : value).

Lemma assign_lookup o p k :
  assign o p !! k = match p !! k with Some v => Some v | None => o !! k end.
Proof.
  unfold assign. destruct (p !! k) as [v|] eqn:Hp.
  - by apply lookup_union_Some_l.
  - by rewrite lookup_union_r.
Qed.

Lemma get_insert_eq o k v : get (<[k := v]> o) k = v.
Proof. unfold get. by rewrite lookup_insert_eq. Qed.

Lemma get_insert_ne o k k' v : k ≠ k' → get (<[k := v]> o) k' = get o k'.
Proof. intros Hne. unfold get. by rewrite lookup_insert_ne. Qed.



End Objects.

(** ** The constructor *)

Import ProgressEvent.

Lemma new_Some (partial : obj) :
  new (Some partial) = assign (new None) (delete "__proto__" partial).
Proof. reflexivity. Qed.

Lemma new_lookup (partial : obj) (k : string) :
  k ≠ "__proto__" →
  new (Some partial) !! k
  = match partial !! k with Some v => Some v | None => new None !! k end.
Proof.
  intros Hk. rewrite new_Some, assign_lookup.
  by rewrite lookup_delete_ne.
Qed.

Lemma new_lookup_proto (partial : option obj) :
  new partial !! "__proto__" = None.
Proof.
  destruct partial as [p|]; [|reflexivity].
  rewrite new_Some, assign_lookup. by rewrite lookup_delete_eq.
Qed.

Lemma new_prototype_Some (partial : obj) :
  new_prototype (Some partial)
  = match partial !! "__proto__" with
    | Some v => if is_object_or_null v then Replaced v else ClassPrototype
    | None => ClassPrototype
    end.
Proof.
  unfold new_prototype, replaced_prototype. simpl.
  destruct (partial !! "__proto__") as [v|]; [|done].
  by destruct (is_object_or_null v).
Qed.

Lemma new_default :
  new None = <["callbackDelaySeconds" := VNum 0]> {["message" := VStr ""]}.
Proof. reflexivity. Qed.

(** C9.  An event constructed without a partial source has the empty
    string as [message] and [0] as [callbackDelaySeconds]; these two
    are all its properties. *)
Theorem default_event :
  get (new None) "message" = VStr "" ∧
  get (new None) "callbackDelaySeconds" = VNum 0 ∧
  dom (new None) = {["message"; "callbackDelaySeconds"]}.
Proof.
  split; [reflexivity|]. split; [reflexivity|].
  rewrite new_default, dom_insert_L, dom_singleton_L. set_solver.
Qed.



(** C10.  A key that the partial source holds with the value
    [undefined] replaces the class default: with [message: undefined]
    the event's [message] is [undefined], not [''], and with
    [callbackDelaySeconds: undefined] the delay is [undefined],
    not [0]. *)
Theorem new_explicit_undefined :
  (∀ partial : obj,
     new (Some (<["message" := VUndefined]> partial)) !! "message"
     = Some VUndefined) ∧
  (∀ partial : obj,
     new (Some (<["callbackDelaySeconds" := VUndefined]> partial))
       !! "callbackDelaySeconds"
     = Some VUndefined) ∧
  get (new (Some {["message" := VUndefined]})) "message" = VUndefined ∧
  get (new None) "message" = VStr "".
Proof.
  split; [|split; [|split; reflexivity]].
  - intros partial. rewrite new_lookup by done. by rewrite lookup_insert_eq.
  - intros partial. rewrite new_lookup by done. by rewrite lookup_insert_eq.
Qed.

(** ** The convenience constructors *)

Lemma validate_in_progress (draft : obj) :
  get draft "status" = status_value InProgress → validate draft = true.
Proof. unfold validate. by intros ->. Qed.

Lemma progress_built (model ctx : value) :
  progress model ctx = Some (new (Some (progress_draft model ctx))).
Proof.
  unfold progress, progress_draft, build, builder, spread. simpl.
  rewrite validate_in_progress; [done|].
  unfold resourceModel, callbackContext, status.
  destruct (to_boolean model), (to_boolean ctx); reflexivity.
Qed.

Lemma progress_draft_lookup (model ctx : value) (k : string) :
  progress_draft model ctx !! k
  = if decide (k = "resourceModel") then
      if to_boolean model then Some model else None
    else if decide (k = "callbackContext") then
      if to_boolean ctx then Some ctx else None
    else if decide (k = "status") then Some (status_value InProgress)
    else None.
Proof.
  unfold progress_draft.
  destruct (to_boolean model), (to_boolean ctx);
    repeat case_decide; by simplify_map_eq.
Qed.

Example progress_with_model :
  progress (VObj {["Name" := VStr "queue"]}) VUndefined
  = Some (<["resourceModel" := VObj {["Name" := VStr "queue"]}]>
            (<["status" := VStr "IN_PROGRESS"]> (new None))).
Proof. reflexivity. Qed.

Example progress_with_empty_context :
  progress VUndefined (VObj ∅)
  = Some (<["callbackContext" := VObj ∅]>
            (<["status" := VStr "IN_PROGRESS"]> (new None))).
Proof. reflexivity. Qed.

Example progress_with_null_model :
  progress VNull VUndefined = Some (<["status" := VStr "IN_PROGRESS"]> (new None)).
Proof. reflexivity. Qed.

(** C1, as the code has it.  [progress(model, ctx)] always returns an
    event, whose [status] is IN_PROGRESS; its [resourceModel] is
    [model] when [model] is truthy and is absent otherwise, and its
    [callbackContext] is [ctx] when [ctx] is truthy and is absent
    otherwise. *)
Theorem progress_attaches_truthy (model ctx : value) :
  ∃ ev, progress model ctx = Some ev ∧
    ev !! "status" = Some (status_value InProgress) ∧
    ev !! "resourceModel" = (if to_boolean model then Some model else None) ∧
    ev !! "callbackContext" = (if to_boolean ctx then Some ctx else None).
Proof.
  exists (new (Some (progress_draft model ctx))).
  split; [apply progress_built|].
  rewrite !new_lookup by done. rewrite !progress_draft_lookup. simpl.
  destruct (to_boolean model), (to_boolean ctx); done.
Qed.

(** C1, as stated, fails: [0] as model and [''] as context are
    provided, and the event holds neither. *)
Lemma progress_drops_provided_falsy :
  provided (VNum 0) = true ∧ provided (VStr "") = true ∧
  ∃ ev, progress (VNum 0) (VStr "") = Some ev ∧
    ev !! "resourceModel" = None ∧ ev !! "callbackContext" = None.
Proof.
  split; [reflexivity|]. split; [reflexivity|].
  eexists. split; [reflexivity|]. split; reflexivity.
Qed.

Example failed_not_found :
  failed (ErrorCode "NotFound") "no such queue"
  = Some (<["message" := VStr "no such queue"]>
            (<["errorCode" := VStr "NotFound"]>
               (<["status" := VStr "FAILED"]> (new None)))).
Proof. reflexivity. Qed.

(** C2.  [failed(errorCode, message)] always returns an event, with
    [status] FAILED, the given [errorCode] and [message], and neither
    [resourceModel] nor [callbackContext]. *)
Theorem failed_event (code : HandlerErrorCode) (msg : string) :
  ∃ ev, failed code msg = Some ev ∧
    ev !! "status" = Some (status_value Failed) ∧
    ev !! "errorCode" = Some (code_value code) ∧
    ev !! "message" = Some (VStr msg) ∧
    ev !! "resourceModel" = None ∧
    ev !! "callbackContext" = None.
Proof.
  exists (new (Some (<["message" := VStr msg]>
                       (<["errorCode" := code_value code]>
                          (<["status" := status_value Failed]> ∅))))).
  split.
  - unfold failed, build, validate, builder, spread, message, errorCode, status.
    simpl. rewrite get_insert_ne, get_insert_ne, get_insert_eq by done. simpl.
    unfold filled. rewrite lookup_insert_ne, lookup_insert_eq by done.
    destruct code; reflexivity.
  - rewrite !new_lookup by done. by simplify_map_eq.
Qed.

(** C3.  [success(model, ctx)] returns the event of
    [progress(model, ctx)] with [status] SUCCESS and every other field
    as [progress] leaves it. *)
Theorem success_is_progress_but_status (model ctx : value) :
  ∃ p s, progress model ctx = Some p ∧ success model ctx = Some s ∧
    s !! "status" = Some (status_value Success) ∧
    delete "status" s = delete "status" p.
Proof.
  pose proof (progress_built model ctx) as Hp.
  eexists _, (<["status" := status_value Success]> _).
  split; [exact Hp|]. split.
  - unfold success. by rewrite Hp.
  - split; [apply lookup_insert_eq|apply delete_insert_eq].
Qed.

(** ** The build step *)












(** ** SessionProxy *)

Import SessionProxy.

Lemma alloc_fresh (o : object) (σ : store) :
  ∃ l, alloc o σ = (Normal l, <[l := o]> σ) ∧ σ !! l = None.
Proof.
  exists (fresh (dom σ)). split; [done|].
  apply not_elem_of_dom, is_fresh.
Qed.

Lemma merge_lookup (base : obj) (options : option obj) (k : string) :
  assign (assign ∅ base) (spread options) !! k
  = match spread options !! k with Some v => Some v | None => base !! k end.
Proof.
  rewrite assign_lookup. destruct (spread options !! k); [done|].
  rewrite assign_lookup. destruct (base !! k); [done|apply lookup_empty].
Qed.

(** One call of [client] on a proxy: either the name has no
    constructor and the call throws, leaving the store as it was, or a
    new client is put at an identity the store did not hold. *)
Lemma client_step (Aws : gset string) (this : loc) (base : obj)
    (name : string) (options : option obj) (σ : store) :
  σ !! this = Some (OSessionProxy base) →
  ((name ∉ Aws) ∧ client Aws this name options σ = (Throw "TypeError", σ)) ∨
  (name ∈ Aws ∧ ∃ c,
     σ !! c = None ∧
     client Aws this name options σ
     = (Normal c,
        <[c := OClient name (assign (assign ∅ base) (spread options))]> σ)).
Proof.
  intros Hthis. unfold client, this_options, bind, load, construct.
  rewrite Hthis. simpl. case_decide as Hname.
  - right. split; [done|].
    destruct (alloc_fresh (OClient name (assign (assign ∅ base) (spread options))) σ)
      as (c & Hc & Hnew).
    exists c. by rewrite Hc.
  - left. by split.
Qed.

(** With truthy credentials [getSession] allocates a proxy over
    [{credentials, region}]. *)
Lemma getSession_new (credentials region : value) (σ : store) :
  to_boolean credentials = true →
  ∃ this,
    σ !! this = None ∧
    getSession credentials region σ
    = (Normal (Some this),
       <[this := OSessionProxy
                   (<["region" := region]>
                      (<["credentials" := credentials]> ∅))]> σ).
Proof.
  intros Htruthy. exists (fresh (dom σ)).
  split; [apply not_elem_of_dom, is_fresh|].
  unfold getSession. by rewrite Htruthy.
Qed.

(** C4.  Without credentials [getSession] returns [null], whatever the
    region, and does not throw; with a credentials object it returns a
    new proxy whose options are exactly [{credentials, region}]. *)
Theorem getSession_null_or_proxy :
  (∀ (region : value) (σ : store),
     getSession VUndefined region σ = (Normal None, σ)) ∧
  (∀ (props : obj) (region : value) (σ : store),
     ∃ this,
       σ !! this = None ∧
       getSession (VObj props) region σ
       = (Normal (Some this),
          <[this := OSessionProxy
                      (<["region" := region]>
                         (<["credentials" := VObj props]> ∅))]> σ)).
Proof.
  split; [done|].
  intros props region σ. by apply getSession_new.
Qed.

(** C5.  On a proxy with options [base], [client(name, options)] for a
    name the SDK knows constructs the client with the shallow merge of
    [base] and [options]: key by key, the value of [options] where
    [options] has the key, the value of [base] elsewhere.  So on a proxy
    obtained with region "Y", [client(name, {region: "X"})] configures
    the client with region "X", the credentials being those of the
    proxy. *)
Theorem client_merges_options (Aws : gset string) :
  (∀ (this : loc) (base : obj) (name : string) (options : option obj)
     (σ : store),
     σ !! this = Some (OSessionProxy base) → name ∈ Aws →
     ∃ c config,
       σ !! c = None ∧
       client Aws this name options σ
       = (Normal c, <[c := OClient name config]> σ) ∧
       ∀ k, config !! k = match spread options !! k with
                          | Some v => Some v
                          | None => base !! k
                          end) ∧
  (∀ (props : obj) (X Y name : string) (σ : store),
     name ∈ Aws →
     ∃ this σ1 c σ2 config,
       getSession (VObj props) (VStr Y) σ = (Normal (Some this), σ1) ∧
       client Aws this name (Some {["region" := VStr X]}) σ1 = (Normal c, σ2) ∧
       σ2 !! c = Some (OClient name config) ∧
       config !! "region" = Some (VStr X) ∧
       config !! "credentials" = Some (VObj props)).
Proof.
  assert (Hcall : ∀ (this : loc) (base : obj) (name : string)
                    (options : option obj) (σ : store),
             σ !! this = Some (OSessionProxy base) → name ∈ Aws →
             ∃ c,
               σ !! c = None ∧
               client Aws this name options σ
               = (Normal c,
                  <[c := OClient name (assign (assign ∅ base) (spread options))]> σ)).
  { intros this base name options σ Hthis Hname.
    destruct (client_step Aws this base name options σ Hthis)
      as [[Hno _]|[_ Hc]]; [done|exact Hc]. }
  split.
  - intros this base name options σ Hthis Hname.
    destruct (Hcall this base name options σ Hthis Hname) as (c & Hnew & Hc).
    exists c, (assign (assign ∅ base) (spread options)).
    split; [done|]. split; [done|]. intros k. apply merge_lookup.
  - intros props X Y name σ Hname.
    destruct (getSession_new (VObj props) (VStr Y) σ eq_refl)
      as (this & Hnew & Hsession).
    set (base := <["region" := VStr Y]> (<["credentials" := VObj props]> ∅))
      in Hsession.
    set (σ1 := <[this := OSessionProxy base]> σ) in Hsession.
    destruct (Hcall this base name (Some {["region" := VStr X]}) σ1)
      as (c & Hc & Hclient); [apply lookup_insert_eq|done|].
    eexists this, σ1, c, _, _.
    split; [exact Hsession|]. split; [exact Hclient|].
    split; [apply lookup_insert_eq|].
    rewrite !merge_lookup. simpl. subst base. by simplify_map_eq.
Qed.

Lemma client_merges_options_witness :
  (∃ c config,
     ({[1%positive := OSessionProxy {["region" := VStr "Y"]}]} : store) !! c = None ∧
     client {["S3"]} 1%positive "S3" (Some {["region" := VStr "X"]})
       {[1%positive := OSessionProxy {["region" := VStr "Y"]}]}
     = (Normal c,
        <[c := OClient "S3" config]>
          {[1%positive := OSessionProxy {["region" := VStr "Y"]}]}) ∧
     ∀ k, config !! k
          = match spread (Some {["region" := VStr "X"]}) !! k with
            | Some v => Some v
            | None => ({["region" := VStr "Y"]} : obj) !! k
            end) ∧
  (∃ this σ1 c σ2 config,
     getSession (VObj ∅) (VStr "Y") ∅ = (Normal (Some this), σ1) ∧
     client {["S3"]} this "S3" (Some {["region" := VStr "X"]}) σ1
     = (Normal c, σ2) ∧
     σ2 !! c = Some (OClient "S3" config) ∧
     config !! "region" = Some (VStr "X") ∧
     config !! "credentials" = Some (VObj ∅)).
Proof.
  split.
  - apply (proj1 (client_merges_options {["S3"]})).
    + reflexivity.
    + apply elem_of_singleton. reflexivity.
  - apply (proj2 (client_merges_options {["S3"]}) ∅ "X" "Y" "S3" ∅).
    apply elem_of_singleton. reflexivity.
Defined.

(** ** Sequences of [client] calls *)

Lemma returned_cons_normal (c : loc) (rs : list (completion loc)) :
  returned (Normal c :: rs) = c :: returned rs.
Proof. reflexivity. Qed.

Lemma returned_cons_throw (err : string) (rs : list (completion loc)) :
  returned (Throw err :: rs) = returned rs.
Proof. reflexivity. Qed.

Lemma client_known (Aws : gset string) (this : loc) (base : obj)
    (name : string) (options : option obj) (σ : store) :
  σ !! this = Some (OSessionProxy base) → name ∈ Aws →
  ∃ c,
    σ !! c = None ∧
    client Aws this name options σ
    = (Normal c,
       <[c := OClient name (assign (assign ∅ base) (spread options))]> σ).
Proof.
  intros Hthis Hname.
  destruct (client_step Aws this base name options σ Hthis)
    as [[Hno _]|[_ Hc]]; [done|exact Hc].
Qed.

Lemma client_unknown (Aws : gset string) (this : loc) (base : obj)
    (name : string) (options : option obj) (σ : store) :
  σ !! this = Some (OSessionProxy base) → name ∉ Aws →
  client Aws this name options σ = (Throw "TypeError", σ).
Proof.
  intros Hthis Hname.
  destruct (client_step Aws this base name options σ Hthis)
    as [[_ Hthrow]|[Hyes _]]; [exact Hthrow|done].
Qed.

Lemma clients_cons (Aws : gset string) (this : loc) (name : string)
    (options : option obj) (rest : list (string * option obj)) (σ : store) :
  clients Aws this ((name, options) :: rest) σ
  = ((client Aws this name options σ).1
       :: (clients Aws this rest (client Aws this name options σ).2).1,
     (clients Aws this rest (client Aws this name options σ).2).2).
Proof.
  simpl. destruct (client Aws this name options σ) as [r σ1]. simpl.
  by destruct (clients Aws this rest σ1).
Qed.

Lemma clients_preserves (Aws : gset string) (this : loc) (base : obj)
    (calls : list (string * option obj)) :
  ∀ σ : store,
    σ !! this = Some (OSessionProxy base) →
    ∀ l o, σ !! l = Some o → (clients Aws this calls σ).2 !! l = Some o.
Proof.
  induction calls as [|[name options] rest IH]; intros σ Hthis l o Hl; [done|].
  rewrite clients_cons. simpl.
  destruct (client_step Aws this base name options σ Hthis)
    as [[_ Hthrow]|[_ (c & Hnew & Hnormal)]].
  - rewrite Hthrow. simpl. by apply IH.
  - rewrite Hnormal. simpl.
    apply IH; rewrite lookup_insert_ne; try done; intros <-; congruence.
Qed.

(** What a call of the sequence returned was not in the store the
    sequence started from. *)
Lemma clients_normal_fresh (Aws : gset string) (this : loc) (base : obj)
    (calls : list (string * option obj)) :
  ∀ (σ : store) (i : nat) (c : loc),
    σ !! this = Some (OSessionProxy base) →
    (clients Aws this calls σ).1 !! i = Some (Normal c) →
    σ !! c = None.
Proof.
  induction calls as [|[name options] rest IH]; intros σ i c Hthis Hi; [done|].
  rewrite clients_cons in Hi. cbn [fst] in Hi.
  destruct (client_step Aws this base name options σ Hthis)
    as [[_ Hthrow]|[_ (c0 & Hnew & Hnormal)]].
  - rewrite Hthrow in Hi. cbn [fst snd] in Hi.
    destruct i as [|i]; [done|]. by apply (IH σ i).
  - rewrite Hnormal in Hi. cbn [fst snd] in Hi.
    destruct i as [|i]; [by injection Hi as <-|].
    apply (IH _ i c) in Hi.
    + destruct (decide (c0 = c)) as [->|Hne].
      * by rewrite lookup_insert_eq in Hi.
      * by rewrite lookup_insert_ne in Hi.
    + rewrite lookup_insert_ne; [done|]. intros ->. congruence.
Qed.

(** Two calls of the sequence that returned, returned two clients. *)
Lemma clients_normal_distinct (Aws : gset string) (this : loc) (base : obj)
    (calls : list (string * option obj)) :
  ∀ (σ : store) (i j : nat) (ci cj : loc),
    σ !! this = Some (OSessionProxy base) →
    (i < j)%nat →
    (clients Aws this calls σ).1 !! i = Some (Normal ci) →
    (clients Aws this calls σ).1 !! j = Some (Normal cj) →
    ci ≠ cj.
Proof.
  induction calls as [|[name options] rest IH];
    intros σ i j ci cj Hthis Hlt Hi Hj; [done|].
  rewrite clients_cons in Hi, Hj. cbn [fst] in Hi, Hj.
  destruct j as [|j]; [lia|].
  destruct (client_step Aws this base name options σ Hthis)
    as [[_ Hthrow]|[_ (c0 & Hnew & Hnormal)]].
  - rewrite Hthrow in Hi, Hj. cbn [fst snd] in Hi, Hj.
    destruct i as [|i]; [done|]. apply (IH σ i j); [done|lia|done|done].
  - rewrite Hnormal in Hi, Hj. cbn [fst snd] in Hi, Hj.
    assert (Hthis1 :
      <[c0 := OClient name (assign (assign ∅ base) (spread options))]> σ
        !! this = Some (OSessionProxy base)).
    { rewrite lookup_insert_ne; [done|]. intros ->. congruence. }
    destruct i as [|i].
    + injection Hi as Hc0. subst c0. intros Heq. subst cj.
      apply (clients_normal_fresh Aws this base rest _ j ci Hthis1) in Hj.
      by rewrite lookup_insert_eq in Hj.
    + apply (IH _ i j ci cj Hthis1); [lia|done|done].
Qed.

(** A call of the sequence that returned had a name the SDK knows. *)
Lemma clients_normal_known (Aws : gset string) (this : loc) (base : obj)
    (calls : list (string * option obj)) :
  ∀ (σ : store) (i : nat) (c : loc),
    σ !! this = Some (OSessionProxy base) →
    (clients Aws this calls σ).1 !! i = Some (Normal c) →
    ∃ name options, calls !! i = Some (name, options) ∧ name ∈ Aws.
Proof.
  induction calls as [|[name0 options0] rest IH]; intros σ i c Hthis Hi; [done|].
  rewrite clients_cons in Hi. cbn [fst] in Hi.
  destruct (client_step Aws this base name0 options0 σ Hthis)
    as [[_ Hthrow]|[Hyes (c0 & Hnew & Hnormal)]].
  - rewrite Hthrow in Hi. cbn [fst snd] in Hi.
    destruct i as [|i]; [done|]. by apply (IH σ i c).
  - rewrite Hnormal in Hi. cbn [fst snd] in Hi.
    destruct i as [|i]; [by exists name0, options0|].
    refine (IH _ i c _ Hi).
    rewrite lookup_insert_ne; [done|]. intros ->. congruence.
Qed.

(** A call of the sequence with a name the SDK knows returned a
    client, which holds, when the sequence is over, the options of the
    proxy merged with the options of that call. *)
Lemma clients_known_returns (Aws : gset string) (this : loc) (base : obj)
    (calls : list (string * option obj)) :
  ∀ (σ : store) (i : nat) (name : string) (options : option obj),
    σ !! this = Some (OSessionProxy base) →
    calls !! i = Some (name, options) → name ∈ Aws →
    ∃ c, (clients Aws this calls σ).1 !! i = Some (Normal c) ∧
         (clients Aws this calls σ).2 !! c
         = Some (OClient name (assign (assign ∅ base) (spread options))).
Proof.
  induction calls as [|[name0 options0] rest IH];
    intros σ i name options Hthis Hi Hname; [done|].
  rewrite clients_cons. cbn [fst snd].
  destruct (client_step Aws this base name0 options0 σ Hthis)
    as [[Hno Hthrow]|[_ (c0 & Hnew & Hnormal)]].
  - rewrite Hthrow. cbn [fst snd].
    destruct i as [|i]; [injection Hi as <- <-; done|].
    by apply (IH σ i name options).
  - rewrite Hnormal. cbn [fst snd].
    assert (Hthis1 :
      <[c0 := OClient name0 (assign (assign ∅ base) (spread options0))]> σ
        !! this = Some (OSessionProxy base)).
    { rewrite lookup_insert_ne; [done|]. intros ->. congruence. }
    destruct i as [|i].
    + injection Hi as <- <-. exists c0. split; [done|].
      apply (clients_preserves Aws this base rest _ Hthis1).
      apply lookup_insert_eq.
    + by apply (IH _ i name options Hthis1).
Qed.

(** C8.  Whatever [client] calls are made on a proxy, one after the
    other, the proxy holds afterwards the options it held before, and
    so does every object the store held; the clients returned have
    identities that are new to the store and pairwise distinct.  Every
    call whose name the SDK knows returns a client, which holds the
    options of the proxy merged with those of that call; so two calls
    with the same name return two clients, each with an identity and a
    configuration of its own: no call hands back the client of
    another call. *)
Theorem clients_frame (Aws : gset string) (this : loc) (base : obj)
    (calls : list (string * option obj)) :
  ∀ (σ σ' : store) (rs : list (completion loc)),
    σ !! this = Some (OSessionProxy base) →
    clients Aws this calls σ = (rs, σ') →
    σ' !! this = Some (OSessionProxy base) ∧
    (∀ l o, σ !! l = Some o → σ' !! l = Some o) ∧
    NoDup (returned rs) ∧
    (∀ c, c ∈ returned rs →
          σ !! c = None ∧ ∃ name config, σ' !! c = Some (OClient name config)) ∧
    (∀ i name options,
       calls !! i = Some (name, options) → name ∈ Aws →
       ∃ c, rs !! i = Some (Normal c) ∧
            σ' !! c
            = Some (OClient name (assign (assign ∅ base) (spread options)))) ∧
    (∀ i j name options_i options_j,
       i ≠ j →
       calls !! i = Some (name, options_i) →
       calls !! j = Some (name, options_j) →
       name ∈ Aws →
       ∃ ci cj, rs !! i = Some (Normal ci) ∧ rs !! j = Some (Normal cj) ∧
                ci ≠ cj ∧ σ !! ci = None ∧ σ !! cj = None).
Proof.
  intros σ σ' rs Hthis Hrun.
  assert (Hrs : rs = (clients Aws this calls σ).1) by (by rewrite Hrun).
  assert (Hσ' : σ' = (clients Aws this calls σ).2) by (by rewrite Hrun).
  assert (Hknown : ∀ i name options,
             calls !! i = Some (name, options) → name ∈ Aws →
             ∃ c, rs !! i = Some (Normal c) ∧
                  σ' !! c
                  = Some (OClient name (assign (assign ∅ base) (spread options)))).
  { intros i name options Hi Hname. subst rs σ'.
    by apply clients_known_returns. }
  assert (Hdistinct : ∀ i j ci cj,
             i ≠ j → rs !! i = Some (Normal ci) → rs !! j = Some (Normal cj) →
             ci ≠ cj).
  { intros i j ci cj Hij Hi Hj. subst rs.
    destruct (decide (i < j)%nat) as [Hlt|Hge].
    - by apply (clients_normal_distinct Aws this base calls σ i j).
    - apply not_eq_sym.
      apply (clients_normal_distinct Aws this base calls σ j i); [done|lia|done|done]. }
  assert (Hfresh : ∀ i c, rs !! i = Some (Normal c) → σ !! c = None).
  { intros i c Hi. subst rs.
    by apply (clients_normal_fresh Aws this base calls σ i c). }
  assert (Hold : ∀ l o, σ !! l = Some o → σ' !! l = Some o).
  { intros l o Hl. subst σ'. by apply (clients_preserves Aws this base). }
  assert (Hreturned : ∀ c, c ∈ returned rs → ∃ i, rs !! i = Some (Normal c)).
  { intros c Hc. unfold returned in Hc.
    apply list_elem_of_omap in Hc as (r & Hr & Hsome).
    destruct r as [c'|err]; [|discriminate]. injection Hsome as ->.
    by apply list_elem_of_lookup in Hr. }
  split; [by apply Hold|]. split; [done|]. split; [|split; [|split; [done|]]].
  - clear Hrun Hrs Hknown Hfresh Hreturned.
    induction rs as [|[c|err] rs IH]; [constructor| |].
    + rewrite returned_cons_normal. constructor.
      * intros Hin. unfold returned in Hin.
        apply list_elem_of_omap in Hin as (r & Hr & Hsome).
        destruct r as [c'|err]; [|discriminate]. injection Hsome as ->.
        apply list_elem_of_lookup in Hr as [j Hj].
        by apply (Hdistinct 0%nat (S j) c c).
      * apply IH. intros i j ci cj Hij Hi Hj.
        apply (Hdistinct (S i) (S j)); [lia|done|done].
    + rewrite returned_cons_throw. apply IH. intros i j ci cj Hij Hi Hj.
      apply (Hdistinct (S i) (S j)); [lia|done|done].
  - intros c [i Hi]%Hreturned. split; [by apply (Hfresh i)|].
    assert (Hcall : ∃ name options,
               calls !! i = Some (name, options) ∧ name ∈ Aws).
    { subst rs. by apply (clients_normal_known Aws this base calls σ i c). }
    destruct Hcall as (name & options & Hcall & Hname).
    destruct (Hknown i name options Hcall Hname) as (c' & Hc' & Hstored).
    rewrite Hi in Hc'. injection Hc' as <-. eauto.
  - intros i j name oi oj Hij Hi Hj Hname.
    destruct (Hknown i name oi Hi Hname) as (ci & Hci & _).
    destruct (Hknown j name oj Hj Hname) as (cj & Hcj & _).
    exists ci, cj. split; [done|]. split; [done|].
    split; [by apply (Hdistinct i j)|]. split; [by apply (Hfresh i)|by apply (Hfresh j)].
Qed.

Lemma clients_frame_witness :
  let base : obj := {["region" := VStr "Y"]} in
  let σ : store := {[1%positive := OSessionProxy base]} in
  let σ' : store :=
    <[3%positive := OClient "S3" base]> (<[2%positive := OClient "S3" base]> σ) in
  let calls : list (string * option obj) := [("S3", None); ("S3", None)] in
  let rs := [Normal 2%positive; Normal 3%positive] in
  σ' !! 1%positive = Some (OSessionProxy base) ∧
  (∀ l o, σ !! l = Some o → σ' !! l = Some o) ∧
  NoDup (returned rs) ∧
  (∀ c, c ∈ returned rs →
        σ !! c = None ∧ ∃ name config, σ' !! c = Some (OClient name config)) ∧
  (∀ i name options,
     calls !! i = Some (name, options) → name ∈ ({["S3"]} : gset string) →
     ∃ c, rs !! i = Some (Normal c) ∧
          σ' !! c
          = Some (OClient name (assign (assign ∅ base) (spread options)))) ∧
  (∀ i j name options_i options_j,
     i ≠ j →
     calls !! i = Some (name, options_i) →
     calls !! j = Some (name, options_j) →
     name ∈ ({["S3"]} : gset string) →
     ∃ ci cj, rs !! i = Some (Normal ci) ∧ rs !! j = Some (Normal cj) ∧
              ci ≠ cj ∧ σ !! ci = None ∧ σ !! cj = None).
Proof.
  intros base σ σ' calls rs.
  apply (clients_frame {["S3"]} 1%positive base calls σ σ' rs).
  - reflexivity.
  - vm_compute. reflexivity.
Defined.

(** * Further properties *)

(** ** Rehydrating events *)

Lemma new_fixed (ev : obj) :
  is_Some (ev !! "message") → is_Some (ev !! "callbackDelaySeconds") →
  ev !! "__proto__" = None →
  new (Some ev) = ev.
Proof.
  intros [m Hm] [d Hd] Hp. apply map_eq. intros k.
  destruct (decide (k = "__proto__")) as [->|Hk].
  { by rewrite (new_lookup_proto (Some ev)). }
  rewrite new_lookup by done.
  destruct (ev !! k) as [v|] eqn:Hev; [done|].
  rewrite new_default.
  rewrite lookup_insert_ne by (intros <-; congruence).
  apply lookup_singleton_ne. intros <-. congruence.
Qed.

Lemma new_has_defaulted (partial : option obj) :
  is_Some (new partial !! "message") ∧
  is_Some (new partial !! "callbackDelaySeconds").
Proof.
  destruct partial as [p|]; [|split; by eexists].
  rewrite !new_lookup by done. split.
  - destruct (p !! "message"); by eexists.
  - destruct (p !! "callbackDelaySeconds"); by eexists.
Qed.


(** X2.  The constructor gives back the own properties of its source
    unchanged exactly when the source holds both defaulted keys,
    [message] and [callbackDelaySeconds], and does not hold
    [__proto__] as a key of its own; the event then has the prototype
    of the class.  A source missing a defaulted key comes back with
    the default added, and a source with its own [__proto__] comes
    back without that key. *)
Theorem new_fixed_iff (ev : obj) :
  (new (Some ev) = ev ↔
   is_Some (ev !! "message") ∧ is_Some (ev !! "callbackDelaySeconds") ∧
   ev !! "__proto__" = None) ∧
  (new (Some ev) = ev → new_prototype (Some ev) = ClassPrototype).
Proof.
  assert (Hfixed : new (Some ev) = ev →
                   is_Some (ev !! "message") ∧
                   is_Some (ev !! "callbackDelaySeconds") ∧
                   ev !! "__proto__" = None).
  { intros Heq. rewrite <- Heq.
    destruct (new_has_defaulted (Some ev)) as [Hm Hd].
    split; [done|]. split; [done|]. apply new_lookup_proto. }
  split; [split; [exact Hfixed|]|].
  - intros (Hm & Hd & Hp). by apply new_fixed.
  - intros (_ & _ & Hp)%Hfixed. by rewrite new_prototype_Some, Hp.
Qed.

Lemma new_fixed_iff_witness :
  new (Some (<["callbackDelaySeconds" := VNum 5]> {["message" := VStr "wait"]}))
  = <["callbackDelaySeconds" := VNum 5]> {["message" := VStr "wait"]} ∧
  ¬ new (Some {["message" := VStr "wait"]}) = {["message" := VStr "wait"]} ∧
  ¬ new (Some (<["__proto__" := VNull]> (new None)))
    = <["__proto__" := VNull]> (new None) ∧
  new_prototype
    (Some (<["callbackDelaySeconds" := VNum 5]> {["message" := VStr "wait"]}))
  = ClassPrototype.
Proof.
  split; [|split; [|split]].
  - apply (proj2 (proj1 (new_fixed_iff _))).
    split; [by eexists|]. split; [by eexists|reflexivity].
  - intros Heq.
    apply (proj1 (proj1 (new_fixed_iff _))) in Heq as (_ & [d Hd] & _).
    discriminate Hd.
  - intros Heq.
    apply (proj1 (proj1 (new_fixed_iff _))) in Heq as (_ & _ & Hp).
    discriminate Hp.
  - apply (proj2 (new_fixed_iff _)). reflexivity.
Defined.

Lemma build_has_defaulted (draft ev : obj) :
  build draft = Some ev →
  is_Some (ev !! "message") ∧ is_Some (ev !! "callbackDelaySeconds") ∧
  ev !! "__proto__" = None.
Proof.
  unfold build. destruct (validate draft); [|discriminate].
  intros [= <-].
  destruct (new_has_defaulted (Some draft)) as [Hm Hd].
  split; [done|]. split; [done|]. apply (new_lookup_proto (Some draft)).
Qed.

(** X3.  An event that [failed], [progress] or [success] returned
    passes through the constructor unchanged: rehydrating it adds
    nothing and drops nothing. *)
Theorem helpers_rehydrate (code : HandlerErrorCode) (msg : string)
    (model ctx : value) (ev : obj) :
  failed code msg = Some ev ∨ progress model ctx = Some ev
  ∨ success model ctx = Some ev →
  new (Some ev) = ev.
Proof.
  intros [Hev|[Hev|Hev]].
  - apply build_has_defaulted in Hev as (? & ? & ?). by apply new_fixed.
  - apply build_has_defaulted in Hev as (? & ? & ?). by apply new_fixed.
  - unfold success in Hev. rewrite progress_built in Hev.
    injection Hev as <-.
    destruct (new_has_defaulted (Some (progress_draft model ctx))) as [??].
    apply new_fixed; rewrite lookup_insert_ne by done; try done.
    apply (new_lookup_proto (Some (progress_draft model ctx))).
Qed.

Lemma helpers_rehydrate_witness :
  new (Some (<["status" := VStr "SUCCESS"]> (new None)))
  = <["status" := VStr "SUCCESS"]> (new None).
Proof.
  apply (helpers_rehydrate (ErrorCode "NotFound") "" VUndefined VUndefined).
  right. right. reflexivity.
Defined.

(** ** What the convenience constructors leave out *)

Lemma progress_draft_dom (model ctx : value) :
  dom (progress_draft model ctx)
  ⊆ {["status"; "message"; "callbackDelaySeconds";
      "resourceModel"; "callbackContext"]}.
Proof.
  intros k [v Hk]%elem_of_dom. rewrite progress_draft_lookup in Hk.
  repeat case_decide; subst; try discriminate; set_unfold; tauto.
Qed.

Lemma new_dom (partial : obj) :
  dom (new (Some partial)) ⊆ dom partial ∪ {["message"; "callbackDelaySeconds"]}.
Proof.
  rewrite new_Some, new_default. unfold assign.
  rewrite dom_union_L, dom_delete_L, dom_insert_L, dom_singleton_L.
  set_unfold. tauto.
Qed.

Lemma progress_plain (model ctx : value) :
  plain (new (Some (progress_draft model ctx))).
Proof.
  split; [|split].
  - unfold get. rewrite new_lookup by done.
    by rewrite progress_draft_lookup.
  - unfold get. rewrite new_lookup by done.
    by rewrite progress_draft_lookup.
  - pose proof (progress_draft_dom model ctx) as Hdom.
    intros k [Hk|Hk]%new_dom%elem_of_union; [by apply Hdom|].
    set_unfold. tauto.
Qed.

(** X4.  The events of [progress] and of [success] carry the default
    [message] [''] and the default [callbackDelaySeconds] [0], and no
    key besides [status], [message], [callbackDelaySeconds],
    [resourceModel] and [callbackContext]: neither sets an [errorCode],
    [resourceModels] or a [nextToken]. *)
Theorem progress_success_plain (model ctx : value) :
  ∃ p s, progress model ctx = Some p ∧ success model ctx = Some s ∧
         plain p ∧ plain s.
Proof.
  exists (new (Some (progress_draft model ctx))),
         (<["status" := status_value Success]>
            (new (Some (progress_draft model ctx)))).
  split; [apply progress_built|].
  split; [unfold success; by rewrite progress_built|].
  pose proof (progress_plain model ctx) as (Hm & Hd & Hdom).
  split; [done|]. split; [|split].
  - by rewrite get_insert_ne.
  - by rewrite get_insert_ne.
  - rewrite dom_insert_L.
    intros k [Hk|Hk]%elem_of_union; [|by apply Hdom].
    set_unfold. tauto.
Qed.

(** X5.  [failed(errorCode, message)] returns exactly the event with
    [status] FAILED, the code, the message and the default
    [callbackDelaySeconds] [0]; the given message stands even when it
    is the empty string. *)
Theorem failed_exact (code : HandlerErrorCode) (msg : string) :
  failed code msg
  = Some (<["status" := status_value Failed]>
            (<["errorCode" := code_value code]>
               (<["message" := VStr msg]>
                  {["callbackDelaySeconds" := VNum 0]}))).
Proof. destruct code as [name]. reflexivity. Qed.

(** X6.  For arguments of the declared shape, each left out or an
    object, [progress] does what its signature suggests:
    [resourceModel] is the model exactly when a model was provided, and
    [callbackContext] is the context exactly when one was provided; an
    empty object counts as provided. *)
Theorem progress_attaches_objects (model ctx : value) :
  optional_object model → optional_object ctx →
  ∃ ev, progress model ctx = Some ev ∧
    ev !! "resourceModel" = (if provided model then Some model else None) ∧
    ev !! "callbackContext" = (if provided ctx then Some ctx else None).
Proof.
  intros Hmodel Hctx.
  exists (new (Some (progress_draft model ctx))).
  split; [apply progress_built|].
  rewrite !new_lookup by done. rewrite !progress_draft_lookup. simpl.
  destruct Hmodel as [->|[pm ->]], Hctx as [->|[pc ->]]; done.
Qed.

Lemma progress_attaches_objects_witness :
  ∃ ev, progress (VObj ∅) VUndefined = Some ev ∧
    ev !! "resourceModel" = Some (VObj ∅) ∧
    ev !! "callbackContext" = None.
Proof.
  apply (progress_attaches_objects (VObj ∅) VUndefined).
  - right. by eexists.
  - by left.
Defined.

(** ** Sessions *)

(** X7.  [getSession] returns [null] exactly when the credentials are
    falsy, so [null] and any other falsy value are taken as missing
    credentials just as [undefined] is.  With falsy credentials the
    store is left as it was; with truthy credentials the result is
    never [null] but a new proxy over [{credentials, region}]. *)
Theorem getSession_null_iff_falsy (credentials region : value) (σ : store) :
  ((getSession credentials region σ).1 = Normal None ↔
   to_boolean credentials = false) ∧
  (to_boolean credentials = false →
   getSession credentials region σ = (Normal None, σ)) ∧
  (to_boolean credentials = true →
   ∃ this,
     σ !! this = None ∧
     getSession credentials region σ
     = (Normal (Some this),
        <[this := OSessionProxy
                    (<["region" := region]>
                       (<["credentials" := credentials]> ∅))]> σ)).
Proof.
  assert (Hfalsy : to_boolean credentials = false →
                   getSession credentials region σ = (Normal None, σ)).
  { intros Hfalsy. unfold getSession. by rewrite Hfalsy. }
  split; [split|split; [exact Hfalsy|apply getSession_new]].
  - intros Hnull. destruct (to_boolean credentials) eqn:Htruthy; [|done].
    destruct (getSession_new credentials region σ Htruthy) as (this & _ & Hnew).
    rewrite Hnew in Hnull. discriminate Hnull.
  - intros Hf. by rewrite (Hfalsy Hf).
Qed.

Lemma getSession_null_iff_falsy_witness :
  getSession VNull (VStr "eu-west-1") ∅ = (Normal None, ∅) ∧
  (getSession (VStr "") VUndefined ∅).1 = Normal None ∧
  (∃ this,
     (∅ : store) !! this = None ∧
     getSession (VObj ∅) VUndefined ∅
     = (Normal (Some this),
        <[this := OSessionProxy
                    (<["region" := VUndefined]>
                       (<["credentials" := VObj ∅]> ∅))]> ∅)).
Proof.
  split; [|split].
  - apply (proj1 (proj2 (getSession_null_iff_falsy VNull (VStr "eu-west-1") ∅))).
    reflexivity.
  - apply (proj2 (proj1 (getSession_null_iff_falsy (VStr "") VUndefined ∅))).
    reflexivity.
  - apply (proj2 (proj2 (getSession_null_iff_falsy (VObj ∅) VUndefined ∅))).
    reflexivity.
Defined.

(** X8.  [getSession] keeps no session: two calls with the same
    credentials and region give two distinct proxies, each holding
    [{credentials, region}], and the second call leaves the first
    proxy and everything else in the store as it was. *)
Theorem getSession_twice (credentials region : value) (σ : store) :
  to_boolean credentials = true →
  ∃ p1 p2 σ1 σ2,
    getSession credentials region σ = (Normal (Some p1), σ1) ∧
    getSession credentials region σ1 = (Normal (Some p2), σ2) ∧
    p1 ≠ p2 ∧
    σ2 !! p1 = Some (OSessionProxy
                       (<["region" := region]>
                          (<["credentials" := credentials]> ∅))) ∧
    σ2 !! p2 = Some (OSessionProxy
                       (<["region" := region]>
                          (<["credentials" := credentials]> ∅))) ∧
    ∀ l o, σ !! l = Some o → σ2 !! l = Some o.
Proof.
  intros Htruthy.
  destruct (getSession_new credentials region σ Htruthy) as (p1 & Hp1 & H1).
  set (options := <["region" := region]> (<["credentials" := credentials]> ∅))
    in *.
  set (σ1 := <[p1 := OSessionProxy options]> σ) in *.
  destruct (getSession_new credentials region σ1 Htruthy) as (p2 & Hp2 & H2).
  fold options in H2.
  assert (Hne : p1 ≠ p2).
  { intros ->. unfold σ1 in Hp2. by rewrite lookup_insert_eq in Hp2. }
  exists p1, p2, σ1, (<[p2 := OSessionProxy options]> σ1).
  split; [done|]. split; [done|]. split; [done|]. split; [|split].
  - rewrite lookup_insert_ne by done. apply lookup_insert_eq.
  - apply lookup_insert_eq.
  - intros l o Hl.
    rewrite lookup_insert_ne by (intros <-; unfold σ1 in Hp2;
      rewrite lookup_insert_ne in Hp2 by (intros <-; congruence); congruence).
    unfold σ1. rewrite lookup_insert_ne by (intros <-; congruence). done.
Qed.

Lemma getSession_twice_witness :
  ∃ p1 p2 σ1 σ2,
    getSession (VObj ∅) (VStr "Y") ∅ = (Normal (Some p1), σ1) ∧
    getSession (VObj ∅) (VStr "Y") σ1 = (Normal (Some p2), σ2) ∧
    p1 ≠ p2 ∧
    σ2 !! p1 = Some (OSessionProxy
                       (<["region" := VStr "Y"]>
                          (<["credentials" := VObj ∅]> ∅))) ∧
    σ2 !! p2 = Some (OSessionProxy
                       (<["region" := VStr "Y"]>
                          (<["credentials" := VObj ∅]> ∅))) ∧
    ∀ l o, (∅ : store) !! l = Some o → σ2 !! l = Some o.
Proof. apply (getSession_twice (VObj ∅) (VStr "Y") ∅). reflexivity. Defined.

(** ** Clients *)

Lemma merge_no_options (base : obj) (options : option obj) :
  spread options = ∅ → assign (assign ∅ base) (spread options) = base.
Proof.
  intros Hnone. apply map_eq. intros k.
  rewrite merge_lookup, Hnone, lookup_empty. done.
Qed.

(** X9.  With the options left out, or given as the empty object,
    [client] configures the new client with exactly the options of the
    proxy. *)
Theorem client_without_options (Aws : gset string) (this : loc) (base : obj)
    (name : string) (options : option obj) (σ : store) :
  σ !! this = Some (OSessionProxy base) → name ∈ Aws →
  options = None ∨ options = Some ∅ →
  ∃ c, σ !! c = None ∧
       client Aws this name options σ = (Normal c, <[c := OClient name base]> σ).
Proof.
  intros Hthis Hname Hnone.
  destruct (client_known Aws this base name options σ Hthis Hname)
    as (c & Hc & Hcall).
  exists c. split; [done|]. rewrite Hcall, merge_no_options; [done|].
  by destruct Hnone as [->| ->].
Qed.

Lemma client_without_options_witness :
  ∃ c, ({[1%positive := OSessionProxy {["region" := VStr "Y"]}]} : store) !! c
       = None ∧
       client {["S3"]} 1%positive "S3" None
         {[1%positive := OSessionProxy {["region" := VStr "Y"]}]}
       = (Normal c,
          <[c := OClient "S3" {["region" := VStr "Y"]}]>
            {[1%positive := OSessionProxy {["region" := VStr "Y"]}]}).
Proof.
  apply (client_without_options {["S3"]} 1%positive {["region" := VStr "Y"]}
           "S3" None).
  - reflexivity.
  - apply elem_of_singleton. reflexivity.
  - by left.
Defined.

(** X10.  A key that the per-call options hold with the value
    [undefined] still wins over the proxy's value: the client is
    configured with [undefined] at that key, so
    [client(name, {region: undefined})] loses the region of the
    proxy. *)
Theorem client_undefined_override (Aws : gset string) (this : loc)
    (base options : obj) (name k : string) (σ : store) :
  σ !! this = Some (OSessionProxy base) → name ∈ Aws →
  options !! k = Some VUndefined →
  ∃ c config,
    client Aws this name (Some options) σ
    = (Normal c, <[c := OClient name config]> σ) ∧
    config !! k = Some VUndefined.
Proof.
  intros Hthis Hname Hk.
  destruct (client_known Aws this base name (Some options) σ Hthis Hname)
    as (c & Hc & Hcall).
  exists c, (assign (assign ∅ base) (spread (Some options))).
  split; [done|]. rewrite merge_lookup. simpl. by rewrite Hk.
Qed.

Lemma client_undefined_override_witness :
  ∃ c config,
    client {["S3"]} 1%positive "S3" (Some {["region" := VUndefined]})
      {[1%positive := OSessionProxy {["region" := VStr "Y"]}]}
    = (Normal c,
       <[c := OClient "S3" config]>
         {[1%positive := OSessionProxy {["region" := VStr "Y"]}]}) ∧
    config !! "region" = Some VUndefined.
Proof.
  apply (client_undefined_override {["S3"]} 1%positive
           {["region" := VStr "Y"]} {["region" := VUndefined]} "S3" "region").
  - reflexivity.
  - apply elem_of_singleton. reflexivity.
  - reflexivity.
Defined.

(** ** More on sequences of [client] calls *)

(** X11.  A call of [client] with a name the SDK has no constructor
    for throws and leaves no trace: the calls that follow give what
    they would have given without it, and end in the same store. *)
Theorem client_throw_leaves_no_trace (Aws : gset string) (this : loc)
    (base : obj) (name : string) (options : option obj)
    (rest : list (string * option obj)) (σ : store) :
  σ !! this = Some (OSessionProxy base) → name ∉ Aws →
  clients Aws this ((name, options) :: rest) σ
  = (Throw "TypeError" :: (clients Aws this rest σ).1,
     (clients Aws this rest σ).2).
Proof.
  intros Hthis Hname. rewrite clients_cons.
  by rewrite (client_unknown Aws this base name options σ Hthis Hname).
Qed.

Lemma client_throw_leaves_no_trace_witness :
  clients {["S3"]} 1%positive [("Nope", None); ("S3", None)]
    {[1%positive := OSessionProxy {["region" := VStr "Y"]}]}
  = (Throw "TypeError"
       :: (clients {["S3"]} 1%positive [("S3", None)]
             {[1%positive := OSessionProxy {["region" := VStr "Y"]}]}).1,
     (clients {["S3"]} 1%positive [("S3", None)]
        {[1%positive := OSessionProxy {["region" := VStr "Y"]}]}).2).
Proof.
  apply (client_throw_leaves_no_trace {["S3"]} 1%positive
           {["region" := VStr "Y"]}).
  - reflexivity.
  - intros Hin. apply elem_of_singleton in Hin. discriminate Hin.
Defined.

(** X12.  In any sequence of [client] calls on a proxy, each call
    comes to what it would alone: it throws exactly when its name has
    no constructor, and otherwise its client holds, in the final
    store, the proxy's options merged with that call's own options.
    The options of one call never reach the client of another. *)
Theorem clients_independent (Aws : gset string) (this : loc) (base : obj)
    (calls : list (string * option obj)) :
  ∀ (σ σ' : store) (rs : list (completion loc)),
    σ !! this = Some (OSessionProxy base) →
    clients Aws this calls σ = (rs, σ') →
    Forall2 (outcome Aws base σ') calls rs.
Proof.
  induction calls as [|[name options] rest IH]; intros σ σ' rs Hthis Hrun.
  - injection Hrun as <- <-. constructor.
  - rewrite clients_cons in Hrun. injection Hrun as <- <-.
    destruct (client_step Aws this base name options σ Hthis)
      as [[Hno Hthrow]|[Hyes (c & Hnew & Hnormal)]].
    + rewrite Hthrow. simpl. constructor; [by split|].
      apply (IH σ); [done|]. by destruct (clients Aws this rest σ).
    + rewrite Hnormal. simpl.
      set (σ1 := <[c := OClient name (assign (assign ∅ base) (spread options))]> σ).
      assert (Hthis1 : σ1 !! this = Some (OSessionProxy base)).
      { unfold σ1. rewrite lookup_insert_ne; [done|]. intros <-. congruence. }
      constructor.
      * split; [done|]. simpl.
        apply (clients_preserves Aws this base rest σ1 Hthis1).
        apply lookup_insert_eq.
      * apply (IH σ1); [done|]. by destruct (clients Aws this rest σ1).
Qed.

Lemma clients_independent_witness :
  let base : obj := {["region" := VStr "Y"]} in
  let σ : store := {[1%positive := OSessionProxy base]} in
  let σ' : store :=
    <[3%positive := OClient "S3" base]>
      (<[2%positive := OClient "S3" {["region" := VStr "X"]}]> σ) in
  Forall2 (outcome {["S3"]} base σ')
    [("S3", Some {["region" := VStr "X"]}); ("EC2", None); ("S3", None)]
    [Normal 2%positive; Throw "TypeError"; Normal 3%positive].
Proof.
  intros base σ σ'.
  apply (clients_independent {["S3"]} 1%positive base _ σ σ').
  - reflexivity.
  - vm_compute. reflexivity.
Defined.

(** X13.  A sequence of [client] calls answers every call and
    allocates the returned clients and nothing else: the store ends
    with the identities it had and those returned, one per call that
    did not throw. *)
Theorem clients_allocate_returned (Aws : gset string) (this : loc) (base : obj)
    (calls : list (string * option obj)) :
  ∀ (σ σ' : store) (rs : list (completion loc)),
    σ !! this = Some (OSessionProxy base) →
    clients Aws this calls σ = (rs, σ') →
    length rs = length calls ∧
    dom σ' = dom σ ∪ list_to_set (returned rs) ∧
    length (returned rs) = length (filter (λ call, call.1 ∈ Aws) calls).
Proof.
  induction calls as [|[name options] rest IH]; intros σ σ' rs Hthis Hrun.
  - injection Hrun as <- <-. simpl.
    split; [done|]. split; [|done]. by rewrite (right_id_L ∅ (∪)).
  - rewrite clients_cons in Hrun. injection Hrun as <- <-.
    destruct (client_step Aws this base name options σ Hthis)
      as [[Hno Hthrow]|[Hyes (c & Hnew & Hnormal)]].
    + rewrite Hthrow. cbn [fst snd].
      destruct (IH σ _ _ Hthis (surjective_pairing _)) as (Hlen & Hdom & Hcount).
      rewrite returned_cons_throw, filter_cons_False by done.
      split; [simpl; by f_equal|]. by split.
    + rewrite Hnormal. cbn [fst snd].
      set (σ1 := <[c := OClient name (assign (assign ∅ base) (spread options))]> σ).
      assert (Hthis1 : σ1 !! this = Some (OSessionProxy base)).
      { unfold σ1. rewrite lookup_insert_ne; [done|]. intros <-. congruence. }
      destruct (IH σ1 _ _ Hthis1 (surjective_pairing _)) as (Hlen & Hdom & Hcount).
      rewrite returned_cons_normal, filter_cons_True by done.
      split; [simpl; by f_equal|]. split; [|simpl; by f_equal].
      rewrite Hdom. unfold σ1. rewrite dom_insert_L. simpl.
      by rewrite (comm_L (∪) {[c]} (dom σ)), (assoc_L (∪)).
Qed.

Lemma clients_allocate_returned_witness :
  let base : obj := {["region" := VStr "Y"]} in
  let σ : store := {[1%positive := OSessionProxy base]} in
  let σ' : store := <[2%positive := OClient "S3" base]> σ in
  let rs := [Throw "TypeError"; Normal 2%positive] in
  length rs = 2%nat ∧
  dom σ' = dom σ ∪ list_to_set (returned rs) ∧
  length (returned rs)
  = length (filter (λ call : string * option obj, call.1 ∈ ({["S3"]} : gset string))
              [("EC2", None); ("S3", None)]).
Proof.
  intros base σ σ' rs.
  apply (clients_allocate_returned {["S3"]} 1%positive base
           [("EC2", None); ("S3", None)] σ σ' rs).
  - reflexivity.
  - vm_compute. reflexivity.
Defined.
